(** * Sasso, Carta, Forbice: the game logic and the React session controller

    A shallow embedding of [gameLogic.ts] (the move resolver), [types.ts]
    (the data model) and [App.tsx] (the session controller with its hooks),
    followed by the properties of the resolver and of the session state
    machine.

    Conventions.
    - String-literal unions ([Move], [GameMode], [Player]) are inductive
      types; [Player | 'tie'] is the sum [Winner].
    - The counters are JavaScript numbers that only ever hold integers
      obtained from [0] by [+ 1]; such arithmetic is exact below [2^53], and
      they are modelled as [Z].
    - [getRandomMove()] is the only source of nondeterminism; the move it
      returns is an argument of the event that draws it.
    - An optional property ([lastResult?]) is an [option]; [undefined] is
      [None]. *)

From Stdlib Require Import ZArith Bool List String Lia.
From stdpp Require Import base gmap fin_maps.
Import ListNotations.

Local Open Scope Z_scope.

(* ===================================================================== *)
(** * types.ts                                                            *)
(* ===================================================================== *)

(** [export type Move = 'rock' | 'paper' | 'scissors'] *)
Inductive Move : Set := rock | paper | scissors.

(** [export type GameMode = 'human-vs-computer' | 'computer-vs-computer'] *)
Inductive GameMode : Set := human_vs_computer | computer_vs_computer.

(** [export type Player = 'player1' | 'player2'] *)
Inductive Player : Set := player1 | player2.

(** [Player | 'tie'], the type of [GameResult.winner]. *)
Inductive Winner : Set :=
| won (p : Player)
| tie.

Coercion won : Player >-> Winner.

(** [interface GameResult] *)
Record GameResult : Set := mkGameResult {
  winner : Winner;
  player1Move : Move;
  player2Move : Move
}.

(** The [scores] object of [GameState]; its fields keep their names inside
    the module. *)
Module Scores.
Record t : Set := mk {
  player1 : Z;
  player2 : Z;
  ties : Z
}.
End Scores.

(** [interface GameState] *)
Record GameState : Set := mkGameState {
  mode : GameMode;
  currentRound : Z;
  scores : Scores.t;
  lastResult : option GameResult;
  isPlaying : bool
}.

(** Strict equality [===] on the string literals. *)
Definition Move_eqb (a b : Move) : bool :=
  match a, b with
  | rock, rock | paper, paper | scissors, scissors => true
  | _, _ => false
  end.

Definition GameMode_eqb (a b : GameMode) : bool :=
  match a, b with
  | human_vs_computer, human_vs_computer
  | computer_vs_computer, computer_vs_computer => true
  | _, _ => false
  end.

Definition Winner_eqb (a b : Winner) : bool :=
  match a, b with
  | won player1, won player1 | won player2, won player2 | tie, tie => true
  | _, _ => false
  end.

#[export] Instance Move_eq_dec : EqDecision Move.
Proof. solve_decision. Defined.

#[export] Instance GameMode_eq_dec : EqDecision GameMode.
Proof. solve_decision. Defined.

#[export] Instance Player_eq_dec : EqDecision Player.
Proof. solve_decision. Defined.

#[export] Instance Winner_eq_dec : EqDecision Winner.
Proof. solve_decision. Defined.

(* ===================================================================== *)
(** * gameLogic.ts                                                        *)
(* ===================================================================== *)

(** [export const MOVES: Move[] = ['rock', 'paper', 'scissors']] *)
Definition MOVES : list Move := [rock; paper; scissors].

(** [Array.prototype.includes] on an array of moves. *)
Definition includes (l : list Move) (m : Move) : bool :=
  existsb (Move_eqb m) l.

(** The local table of [determineWinner]:
<<
    const winConditions: Record<Move, Move[]> = {
        rock: ['scissors'], paper: ['rock'], scissors: ['paper'] };
>> *)
Definition winConditions (m : Move) : list Move :=
  match m with
  | rock => [scissors]
  | paper => [rock]
  | scissors => [paper]
  end.

(** [export function determineWinner(player1Move, player2Move)] *)
Definition determineWinner (player1Move player2Move : Move) : Winner :=
  if Move_eqb player1Move player2Move then tie
  else if includes (winConditions player1Move) player2Move
       then player1
       else player2.

(** [export function playRound(player1Move, player2Move)] *)
Definition playRound (player1Move player2Move : Move) : GameResult :=
  let winner := determineWinner player1Move player2Move in
  {| winner := winner;
     player1Move := player1Move;
     player2Move := player2Move |}.

(** The rules that [winConditions] lists, as (winning move, losing move)
    pairs, in the order of [MOVES]. *)
Definition beatsRules : list (Move * Move) :=
  flat_map (fun w => map (pair w) (winConditions w)) MOVES.

(** Whether a rule speaks about the unordered pair of [a] and [b]. *)
Definition ruleApplies (a b : Move) (r : Move * Move) : bool :=
  (Move_eqb (fst r) a && Move_eqb (snd r) b)
  || (Move_eqb (fst r) b && Move_eqb (snd r) a).

(** The outcome seen from the other side of the table. *)
Definition flipWinner (w : Winner) : Winner :=
  match w with
  | won player1 => player2
  | won player2 => player1
  | tie => tie
  end.

(* ===================================================================== *)
(** * App.tsx: the state updates                                          *)
(* ===================================================================== *)

(** [const initialGameState: GameState]; it has no [lastResult] property. *)
Definition initialGameState : GameState :=
  {| mode := human_vs_computer;
     currentRound := 0;
     scores := {| Scores.player1 := 0; Scores.player2 := 0; Scores.ties := 0 |};
     lastResult := None;
     isPlaying := false |}.

(** What [setGameState] accepts: a new state, or a function of the state the
    update is applied to. *)
Inductive SetStateAction : Type :=
| SetValue (next : GameState)
| SetUpdater (updater : GameState -> GameState).

Definition applyAction (act : SetStateAction) (prev : GameState) : GameState :=
  match act with
  | SetValue next => next
  | SetUpdater updater => updater prev
  end.

(** The updater that [handleHumanMove] and [handleComputerVsComputer] both
    pass to [setGameState] once they hold the [result] of the round:
<<
    prev => ({ ...prev,
      currentRound: prev.currentRound + 1,
      scores: {
        player1: prev.scores.player1 + (result.winner === 'player1' ? 1 : 0),
        player2: prev.scores.player2 + (result.winner === 'player2' ? 1 : 0),
        ties: prev.scores.ties + (result.winner === 'tie' ? 1 : 0) },
      lastResult: result,
      isPlaying: false })
>> *)
Definition roundUpdater (result : GameResult) (prev : GameState) : GameState :=
  {| mode := mode prev;
     currentRound := currentRound prev + 1;
     scores :=
       {| Scores.player1 :=
            Scores.player1 (scores prev)
            + (if Winner_eqb (winner result) player1 then 1 else 0);
          Scores.player2 :=
            Scores.player2 (scores prev)
            + (if Winner_eqb (winner result) player2 then 1 else 0);
          Scores.ties :=
            Scores.ties (scores prev)
            + (if Winner_eqb (winner result) tie then 1 else 0) |};
     lastResult := Some result;
     isPlaying := false |}.

(** The handlers. Each returns the argument of its [setGameState] call, or
    [None] when it returns before calling it. [handleHumanMove] and
    [handleComputerVsComputer] read [gameState.isPlaying] from the
    [gameState] of the render that created them: that snapshot is their first
    argument. The moves drawn by [getRandomMove()] are arguments too. *)

(** [handleModeChange = (mode) => setGameState({ ...initialGameState, mode })] *)
Definition handleModeChange (mode' : GameMode) : option SetStateAction :=
  Some (SetValue
          {| mode := mode';
             currentRound := currentRound initialGameState;
             scores := scores initialGameState;
             lastResult := lastResult initialGameState;
             isPlaying := isPlaying initialGameState |}).

Definition handleHumanMove (gameState : GameState) (move computerMove : Move)
  : option SetStateAction :=
  if negb (isPlaying gameState) then None
  else
    let result := playRound move computerMove in
    Some (SetUpdater (roundUpdater result)).

Definition handleComputerVsComputer (gameState : GameState)
  (player1Move player2Move : Move) : option SetStateAction :=
  if negb (isPlaying gameState) then None
  else
    let result := playRound player1Move player2Move in
    Some (SetUpdater (roundUpdater result)).

(** [startNewRound]: [prev => ({ ...prev, isPlaying: true, lastResult: undefined })] *)
Definition startNewRound : option SetStateAction :=
  Some (SetUpdater (fun prev =>
          {| mode := mode prev;
             currentRound := currentRound prev;
             scores := scores prev;
             lastResult := None;
             isPlaying := true |})).

(** [resetGame]: [prev => ({ ...initialGameState, mode: prev.mode })] *)
Definition resetGame : option SetStateAction :=
  Some (SetUpdater (fun prev =>
          {| mode := mode prev;
             currentRound := currentRound initialGameState;
             scores := scores initialGameState;
             lastResult := lastResult initialGameState;
             isPlaying := isPlaying initialGameState |})).

(** The state a handler leaves behind when it runs against the state [prev]. *)
Definition afterHandler (act : option SetStateAction) (prev : GameState)
  : GameState :=
  match act with
  | None => prev
  | Some x => applyAction x prev
  end.

(* ===================================================================== *)
(** * App.tsx: the component with its hooks                               *)
(* ===================================================================== *)

(** The mounted component between two events:
    - [gameState], the value of [useState] at the last render;
    - [callbackEnv], the [gameState] snapshot that the memoized
      [handleHumanMove] and [handleComputerVsComputer] close over, and
      [callbackGen], which stands for their identity: [useCallback] keeps the
      old function until its dependency [gameState.isPlaying] changes;
    - [effectCleanup], the timer that the clean-up function returned by the
      last run of the effect will clear (none when the effect returned
      nothing);
    - [timers], the pending [setTimeout] callbacks, each of them a
      [handleComputerVsComputer] closure given by the snapshot it holds, and
      [nextTimer], the identifier the next [setTimeout] returns. *)
Record App : Type := mkApp {
  gameState : GameState;
  callbackEnv : GameState;
  callbackGen : nat;
  effectCleanup : option nat;
  timers : gmap nat GameState;
  nextTimer : nat
}.

(** [clearTimeout(timer)], as called by the clean-up function. *)
Definition runCleanup (cleanup : option nat) (pending : gmap nat GameState)
  : gmap nat GameState :=
  match cleanup with
  | Some timer => delete timer pending
  | None => pending
  end.

(** One render with the state [next], and the commit that follows it.
<<
    useEffect(() => {
      if (gameState.mode === 'computer-vs-computer' && gameState.isPlaying) {
        const timer = setTimeout(handleComputerVsComputer, 1000);
        return () => clearTimeout(timer);
      }
    }, [gameState.isPlaying, gameState.mode, handleComputerVsComputer]);
>>
    The dependencies are compared with those of the previous render, which
    rendered [gameState a] with the callbacks of generation [callbackGen a].
    When one differs the previous clean-up runs, then the effect. *)
Definition render (a : App) (next : GameState) : App :=
  let isPlayingChanged :=
    negb (Bool.eqb (isPlaying next) (isPlaying (gameState a))) in
  let env := if isPlayingChanged then next else callbackEnv a in
  let gen := if isPlayingChanged then S (callbackGen a) else callbackGen a in
  let depsChanged :=
    isPlayingChanged
    || negb (GameMode_eqb (mode next) (mode (gameState a)))
    || negb (Nat.eqb gen (callbackGen a)) in
  if depsChanged then
    let pending := runCleanup (effectCleanup a) (timers a) in
    if GameMode_eqb (mode next) computer_vs_computer && isPlaying next then
      {| gameState := next;
         callbackEnv := env;
         callbackGen := gen;
         effectCleanup := Some (nextTimer a);
         timers := <[nextTimer a := env]> pending;
         nextTimer := S (nextTimer a) |}
    else
      {| gameState := next;
         callbackEnv := env;
         callbackGen := gen;
         effectCleanup := None;
         timers := pending;
         nextTimer := nextTimer a |}
  else
    {| gameState := next;
       callbackEnv := env;
       callbackGen := gen;
       effectCleanup := effectCleanup a;
       timers := timers a;
       nextTimer := nextTimer a |}.

(** A handler has run: without a [setGameState] call nothing is rendered;
    with one, the component renders with the updated state. *)
Definition dispatch (a : App) (act : option SetStateAction) : App :=
  match act with
  | None => a
  | Some x => render a (applyAction x (gameState a))
  end.

(** The first render: the initial state, and an effect that schedules
    nothing because [isPlaying] is false. *)
Definition mount : App :=
  {| gameState := initialGameState;
     callbackEnv := initialGameState;
     callbackGen := 0;
     effectCleanup := None;
     timers := ∅;
     nextTimer := 0 |}.

(** What can happen to the mounted component. The four clicks are the
    [onClick] handlers of the JSX; the conditions under which the buttons are
    shown are not imposed, so a handler may run in any state. A timer fires
    with the two moves its callback draws. *)
Inductive Event : Set :=
| ClickMode (m : GameMode)
| ClickMove (move computerMove : Move)
| ClickStart
| ClickReset
| TimerFires (timer : nat) (player1Move player2Move : Move).

(** A timer that is not pending (cleared, fired already, or never set) does
    not fire. One that is pending leaves the table and runs its callback. *)
Definition step (a : App) (e : Event) : App :=
  match e with
  | ClickMode m => dispatch a (handleModeChange m)
  | ClickMove move computerMove =>
      dispatch a (handleHumanMove (callbackEnv a) move computerMove)
  | ClickStart => dispatch a startNewRound
  | ClickReset => dispatch a resetGame
  | TimerFires timer player1Move player2Move =>
      match timers a !! timer with
      | None => a
      | Some env =>
          dispatch
            {| gameState := gameState a;
               callbackEnv := callbackEnv a;
               callbackGen := callbackGen a;
               effectCleanup := effectCleanup a;
               timers := delete timer (timers a);
               nextTimer := nextTimer a |}
            (handleComputerVsComputer env player1Move player2Move)
      end
  end.

Definition run (a : App) (es : list Event) : App := fold_left step es a.

(** The round that an event completes, if it completes one: a move click
    whose handler passes its guard, or the firing of a pending timer whose
    callback passes its guard. *)
Definition completedRound (a : App) (e : Event) : option GameResult :=
  match e with
  | ClickMove move computerMove =>
      if isPlaying (callbackEnv a)
      then Some (playRound move computerMove)
      else None
  | TimerFires timer player1Move player2Move =>
      match timers a !! timer with
      | Some env =>
          if isPlaying env
          then Some (playRound player1Move player2Move)
          else None
      | None => None
      end
  | _ => None
  end.

(** The two events that start the session over. *)
Definition startsOver (e : Event) : bool :=
  match e with
  | ClickMode _ | ClickReset => true
  | _ => false
  end.

(** ** Observations on the session state *)

Definition scoreTotal (s : GameState) : Z :=
  Scores.player1 (scores s) + Scores.player2 (scores s) + Scores.ties (scores s).

(** Exactly one of the three score counters went up by one, the other two
    did not move. *)
Definition oneScoreIncremented (prev next : GameState) : Prop :=
  (Scores.player1 (scores next) = Scores.player1 (scores prev) + 1
   /\ Scores.player2 (scores next) = Scores.player2 (scores prev)
   /\ Scores.ties (scores next) = Scores.ties (scores prev))
  \/ (Scores.player1 (scores next) = Scores.player1 (scores prev)
      /\ Scores.player2 (scores next) = Scores.player2 (scores prev) + 1
      /\ Scores.ties (scores next) = Scores.ties (scores prev))
  \/ (Scores.player1 (scores next) = Scores.player1 (scores prev)
      /\ Scores.player2 (scores next) = Scores.player2 (scores prev)
      /\ Scores.ties (scores next) = Scores.ties (scores prev) + 1).

Definition countersZero (s : GameState) : Prop :=
  currentRound s = 0
  /\ Scores.player1 (scores s) = 0
  /\ Scores.player2 (scores s) = 0
  /\ Scores.ties (scores s) = 0.

Definition countersLe (prev next : GameState) : Prop :=
  currentRound prev <= currentRound next
  /\ Scores.player1 (scores prev) <= Scores.player1 (scores next)
  /\ Scores.player2 (scores prev) <= Scores.player2 (scores next)
  /\ Scores.ties (scores prev) <= Scores.ties (scores next).

(** ** Invariants of the mounted component *)

(** The memoized handlers see the current [isPlaying]; a pending timer is
    the one the clean-up will clear, was scheduled by a render that was
    playing, and is pending only while the session is playing in
    computer-vs-computer mode; the clean-up's timer is an identifier that
    [setTimeout] has already handed out. *)
Definition wf (a : App) : Prop :=
  isPlaying (callbackEnv a) = isPlaying (gameState a)
  /\ (forall timer env,
         timers a !! timer = Some env ->
         effectCleanup a = Some timer
         /\ isPlaying env = true
         /\ isPlaying (gameState a) = true
         /\ mode (gameState a) = computer_vs_computer)
  /\ (forall timer, effectCleanup a = Some timer -> (timer < nextTimer a)%nat).

(** The timer [t] has been handed out and is not pending. *)
Definition spent (t : nat) (a : App) : Prop :=
  (t < nextTimer a)%nat /\ timers a !! t = None.

(* ===================================================================== *)
(** * App.tsx: labels, messages and the controls that are rendered        *)
(* ===================================================================== *)

Definition Player_eqb (a b : Player) : bool :=
  match a, b with
  | player1, player1 | player2, player2 => true
  | _, _ => false
  end.

(** [export const MOVE_LABELS = { rock: 'Sasso', paper: 'Carta',
    scissors: 'Forbice' }] *)
Definition MOVE_LABELS (m : Move) : string :=
  match m with
  | rock => "Sasso"%string
  | paper => "Carta"%string
  | scissors => "Forbice"%string
  end.

(** [getPlayerLabel], memoized on [gameState.mode], the one field it reads:
<<
    if (gameState.mode === 'human-vs-computer') {
      return player === 'player1' ? 'Umano' : 'Computer';
    }
    return player === 'player1' ? 'Computer 1' : 'Computer 2';
>> *)
Definition getPlayerLabel (gameState : GameState) (player : Player) : string :=
  if GameMode_eqb (mode gameState) human_vs_computer
  then (if Player_eqb player player1 then "Umano" else "Computer")%string
  else (if Player_eqb player player1 then "Computer 1" else "Computer 2")%string.

(** [getResultMessage], memoized on [gameState.lastResult] and
    [getPlayerLabel]:
<<
    if (!gameState.lastResult) return '';
    const { winner } = gameState.lastResult;
    if (winner === 'tie') return 'Pareggio!';
    const winnerLabel = getPlayerLabel(winner);
    return `${winnerLabel} vince!`;
>> *)
Definition getResultMessage (gameState : GameState) : string :=
  match lastResult gameState with
  | None => EmptyString
  | Some result =>
      match winner result with
      | tie => "Pareggio!"%string
      | won winner =>
          let winnerLabel := getPlayerLabel gameState winner in
          String.append winnerLabel " vince!"
      end
  end.

(** The parts of the rendered tree that depend on the state: the three
    score columns in their order on screen; the last-round panel
    ([gameState.lastResult && ...]) with the labels of the two moves and the
    result message; the move buttons ([MOVES.map], shown when
    [mode === 'human-vs-computer' && isPlaying]); the waiting notice
    ([mode === 'computer-vs-computer' && isPlaying]); the start button
    ([!isPlaying]) with its label, which depends on [currentRound === 0];
    and the new-game button ([currentRound > 0]). The two mode buttons are
    always rendered. Class names, styles and the emoji that precedes each
    move label are left out. [getPlayerLabel] and [getResultMessage] are
    applied to the state being rendered: a memoized copy reads the same
    values, since its dependency list names every field it reads. *)
Record View : Type := mkView {
  scoreboard : list (string * Z);
  lastRoundPanel : option (string * string * string);
  moveButtons : list Move;
  computerStatus : bool;
  startButton : option string;
  resetButton : bool
}.

Definition view (gameState : GameState) : View :=
  {| scoreboard :=
       [ (getPlayerLabel gameState player1,
          Scores.player1 (scores gameState));
         ("Pareggi"%string, Scores.ties (scores gameState));
         (getPlayerLabel gameState player2,
          Scores.player2 (scores gameState)) ];
     lastRoundPanel :=
       match lastResult gameState with
       | Some result =>
           Some (MOVE_LABELS (player1Move result),
                 MOVE_LABELS (player2Move result),
                 getResultMessage gameState)
       | None => None
       end;
     moveButtons :=
       if GameMode_eqb (mode gameState) human_vs_computer
          && isPlaying gameState
       then MOVES else [];
     computerStatus :=
       GameMode_eqb (mode gameState) computer_vs_computer
       && isPlaying gameState;
     startButton :=
       if negb (isPlaying gameState)
       then Some (if currentRound gameState =? 0
                  then "Inizia Partita"%string
                  else "Nuovo Round"%string)
       else None;
     resetButton := 0 <? currentRound gameState |}.

(** An event that the rendered component can receive: a click needs its
    button on screen, a timer needs to be pending. *)
Definition enabled (a : App) (e : Event) : bool :=
  match e with
  | ClickMode _ => true
  | ClickMove move _ => includes (moveButtons (view (gameState a))) move
  | ClickStart =>
      match startButton (view (gameState a)) with
      | Some _ => true
      | None => false
      end
  | ClickReset => resetButton (view (gameState a))
  | TimerFires timer _ _ =>
      match timers a !! timer with
      | Some _ => true
      | None => false
      end
  end.

(** A sequence of events each of which is enabled when it happens. *)
Fixpoint uiTrace (a : App) (es : list Event) : bool :=
  match es with
  | [] => true
  | e :: es' => enabled a e && uiTrace (step a e) es'
  end.

(** ** Counting over a history of events *)

(** The score counter that a round with winner [w] feeds. *)
Definition scoreOf (w : Winner) (s : GameState) : Z :=
  match w with
  | won player1 => Scores.player1 (scores s)
  | won player2 => Scores.player2 (scores s)
  | tie => Scores.ties (scores s)
  end.

(** Starting from the count [acc], the number of rounds accepted by [keep]
    that the events [es] complete on [a] after the last event that starts
    the session over. *)
Fixpoint roundsSince (keep : GameResult -> bool) (a : App) (es : list Event)
  (acc : Z) : Z :=
  match es with
  | [] => acc
  | e :: es' =>
      roundsSince keep (step a e) es'
        (if startsOver e then 0
         else match completedRound a e with
              | Some result => if keep result then acc + 1 else acc
              | None => acc
              end)
  end.

(** ** Further invariants of the mounted component *)

(** While the session is playing in computer-vs-computer mode exactly one
    timer is pending: the one the clean-up will clear, holding the current
    callback. Otherwise none is, and the effect has returned no clean-up. *)
Definition scheduled (a : App) : Prop :=
  if GameMode_eqb (mode (gameState a)) computer_vs_computer
     && isPlaying (gameState a)
  then exists timer,
         effectCleanup a = Some timer
         /\ timers a = {[ timer := callbackEnv a ]}
  else effectCleanup a = None /\ timers a = ∅.

(** The counters are not negative; a stored result is the resolver's answer
    on the moves stored with it and is only there between rounds, after at
    least one round; without a stored result a round is in progress or none
    has been played. *)
Definition sound (s : GameState) : Prop :=
  0 <= currentRound s
  /\ 0 <= Scores.player1 (scores s)
  /\ 0 <= Scores.player2 (scores s)
  /\ 0 <= Scores.ties (scores s)
  /\ match lastResult s with
     | Some result =>
         winner result
         = determineWinner (player1Move result) (player2Move result)
         /\ isPlaying s = false
         /\ 0 < currentRound s
     | None => isPlaying s = true \/ currentRound s = 0
     end.

(** ** The resolver as the specification words it

    "Identical moves: tie. Otherwise apply the fixed beats-relation: rock
    beats scissors, scissors beats paper, paper beats rock; if moveA beats
    moveB, first-wins, else second-wins." *)
Module Reference.

Inductive beats : Move -> Move -> Prop :=
| rock_beats_scissors : beats rock scissors
| scissors_beats_paper : beats scissors paper
| paper_beats_rock : beats paper rock.

Definition beatsb (a b : Move) : bool :=
  match a, b with
  | rock, scissors | scissors, paper | paper, rock => true
  | _, _ => false
  end.

Definition resolve (moveA moveB : Move) : Winner :=
  match decide (moveA = moveB) with
  | left _ => tie
  | right _ => if beatsb moveA moveB then player1 else player2
  end.

End Reference.

(* ===================================================================== *)
(** * Properties of the move resolver                                     *)
(* ===================================================================== *)

Lemma beatsb_beats a b : Reference.beatsb a b = true <-> Reference.beats a b.
Proof.
  split.
  - destruct a, b; simpl; intros H; try discriminate H; constructor.
  - intros []; reflexivity.
Qed.

Lemma Move_eqb_eq a b : Move_eqb a b = true <-> a = b.
Proof. destruct a, b; simpl; split; congruence. Qed.

Lemma Move_eqb_refl a : Move_eqb a a = true.
Proof. destruct a; reflexivity. Qed.

Lemma includes_winConditions a b :
  includes (winConditions a) b = Reference.beatsb a b.
Proof. destruct a, b; reflexivity. Qed.

Lemma determineWinner_diag x : determineWinner x x = tie.
Proof. unfold determineWinner. rewrite Move_eqb_refl. reflexivity. Qed.

(** The table of [gameLogic.test.ts], "should handle all possible
    combinations", and its [playRound] cases. *)
Lemma determineWinner_test_table :
  map (fun '(p1, p2) => determineWinner p1 p2)
      [(rock, rock); (paper, paper); (scissors, scissors);
       (rock, scissors); (paper, rock); (scissors, paper);
       (scissors, rock); (rock, paper); (paper, scissors)]
  = [tie; tie; tie;
     won player1; won player1; won player1;
     won player2; won player2; won player2].
Proof. reflexivity. Qed.

Lemma playRound_test_structure :
  playRound rock scissors
  = {| winner := player1; player1Move := rock; player2Move := scissors |}
  /\ winner (playRound rock rock) = tie
  /\ winner (playRound paper rock) = player1
  /\ winner (playRound rock paper) = player2.
Proof. repeat split; reflexivity. Qed.

(** C1. The resolver of the code is the win table of the specification:
    [determineWinner] and [Reference.resolve] agree on every pair of moves;
    equal moves tie, and otherwise the first player wins exactly when the
    first move beats the second. In particular rock against scissors is a win
    for player 1 and scissors against rock a win for player 2. *)
Theorem determineWinner_is_win_table :
  (forall a b, determineWinner a b = Reference.resolve a b)
  /\ (forall x, determineWinner x x = tie)
  /\ (forall a b, a <> b ->
        (Reference.beats a b -> determineWinner a b = player1)
        /\ (~ Reference.beats a b -> determineWinner a b = player2))
  /\ determineWinner rock scissors = player1
  /\ determineWinner scissors rock = player2
  /\ determineWinner paper paper = tie.
Proof.
  repeat split.
  - intros a b. destruct a, b; reflexivity.
  - apply determineWinner_diag.
  - intros Hb. destruct Hb; reflexivity.
  - intros Hnb. destruct a, b; try reflexivity; try congruence;
      exfalso; apply Hnb; constructor.
Qed.

Lemma determineWinner_is_win_table_witness :
  paper <> scissors
  /\ ~ Reference.beats paper scissors
  /\ determineWinner paper scissors = player2.
Proof.
  assert (Hne : paper <> scissors) by discriminate.
  assert (Hnb : ~ Reference.beats paper scissors) by (intros H; inversion H).
  destruct determineWinner_is_win_table as (_ & _ & Hrule & _).
  split; [exact Hne |]. split; [exact Hnb |].
  apply (Hrule paper scissors Hne), Hnb.
Defined.

(** C3. Swapping the two moves flips the outcome: a win for player 1 becomes
    a win for player 2 and conversely, a tie stays a tie, and the two
    orientations of a pair are never won by the same side. *)
Theorem determineWinner_swap :
  forall a b,
    determineWinner b a = flipWinner (determineWinner a b)
    /\ (determineWinner a b = player1 -> determineWinner b a = player2)
    /\ (determineWinner a b = player2 -> determineWinner b a = player1)
    /\ (determineWinner a b = tie -> determineWinner b a = tie)
    /\ ~ (determineWinner a b = player1 /\ determineWinner b a = player1)
    /\ ~ (determineWinner a b = player2 /\ determineWinner b a = player2).
Proof.
  intros a b.
  destruct a, b; cbn; repeat split; try congruence;
    intros [H1 H2]; congruence.
Qed.

Lemma determineWinner_swap_witness :
  determineWinner scissors paper = player1
  /\ determineWinner paper scissors = player2.
Proof.
  assert (H : determineWinner scissors paper = player1) by reflexivity.
  destruct (determineWinner_swap scissors paper) as (_ & Hflip & _).
  split; [exact H | exact (Hflip H)].
Defined.

(** C4. On two distinct moves the resolver never answers [tie]: exactly one
    of the three rules of the table speaks about the pair, so one of the two
    moves beats the other, not both, and the side holding it wins. *)
Theorem determineWinner_distinct_total :
  forall a b, a <> b ->
    determineWinner a b <> tie
    /\ (determineWinner a b = player1 \/ determineWinner a b = player2)
    /\ length (filter (ruleApplies a b) beatsRules) = 1%nat
    /\ xorb (includes (winConditions a) b) (includes (winConditions b) a) = true
    /\ (includes (winConditions a) b = true -> determineWinner a b = player1)
    /\ (includes (winConditions b) a = true -> determineWinner a b = player2).
Proof.
  intros a b Hab.
  destruct a, b; try congruence; cbn; repeat split;
    try congruence; auto.
Qed.

Lemma determineWinner_distinct_total_witness :
  rock <> paper
  /\ determineWinner rock paper <> tie
  /\ length (filter (ruleApplies rock paper) beatsRules) = 1%nat.
Proof.
  assert (H : rock <> paper) by discriminate.
  split; [exact H |].
  destruct (determineWinner_distinct_total rock paper H) as (H1 & _ & H2 & _).
  split; [exact H1 | exact H2].
Defined.

(* ===================================================================== *)
(** * Properties of the session state                                     *)
(* ===================================================================== *)

(** ** What a step does to the session state *)

Lemma gameState_render a next : gameState (render a next) = next.
Proof.
  unfold render.
  repeat match goal with |- context [if ?c then _ else _] => destruct c end;
    reflexivity.
Qed.

Lemma gameState_dispatch a act :
  gameState (dispatch a act) = afterHandler act (gameState a).
Proof. destruct act as [x |]; simpl; [apply gameState_render | reflexivity]. Qed.

Lemma gameState_step a e :
  gameState (step a e) =
  match e with
  | ClickMode m => afterHandler (handleModeChange m) (gameState a)
  | ClickMove move computerMove =>
      afterHandler (handleHumanMove (callbackEnv a) move computerMove)
        (gameState a)
  | ClickStart => afterHandler startNewRound (gameState a)
  | ClickReset => afterHandler resetGame (gameState a)
  | TimerFires timer player1Move player2Move =>
      match timers a !! timer with
      | None => gameState a
      | Some env =>
          afterHandler (handleComputerVsComputer env player1Move player2Move)
            (gameState a)
      end
  end.
Proof.
  destruct e as [m | mv cm | | | timer m1 m2]; cbn [step];
    try apply gameState_dispatch.
  destruct (timers a !! timer); [| reflexivity].
  rewrite gameState_dispatch. reflexivity.
Qed.

Lemma run_app a es es' : run a (es ++ es') = run (run a es) es'.
Proof. apply fold_left_app. Qed.

Lemma run_snoc a es e : run a (es ++ [e]) = step (run a es) e.
Proof. rewrite run_app. reflexivity. Qed.

(** ** The round updater *)

Lemma roundUpdater_round result prev :
  currentRound (roundUpdater result prev) = currentRound prev + 1.
Proof. reflexivity. Qed.

Lemma roundUpdater_one_score result prev :
  oneScoreIncremented prev (roundUpdater result prev).
Proof.
  unfold oneScoreIncremented, roundUpdater; simpl.
  destruct (winner result) as [[|] |]; simpl.
  - left. lia.
  - right; left. lia.
  - right; right. lia.
Qed.

Lemma roundUpdater_total result prev :
  scoreTotal (roundUpdater result prev) = scoreTotal prev + 1.
Proof.
  unfold scoreTotal, roundUpdater; simpl.
  destruct (winner result) as [[|] |]; simpl; lia.
Qed.

Lemma completedRound_step a e result :
  completedRound a e = Some result ->
  gameState (step a e) = roundUpdater result (gameState a).
Proof.
  intros H. rewrite gameState_step.
  destruct e as [m | mv cm | | | timer m1 m2]; simpl in H;
    try discriminate H.
  - unfold handleHumanMove.
    destruct (isPlaying (callbackEnv a)); [| discriminate H].
    injection H as <-. reflexivity.
  - destruct (timers a !! timer) as [env |]; [| discriminate H].
    unfold handleComputerVsComputer.
    destruct (isPlaying env); [| discriminate H].
    injection H as <-. reflexivity.
Qed.

(** Every handler leaves the score total equal to the round counter when it
    found them equal. *)
Lemma balanced_step a e :
  scoreTotal (gameState a) = currentRound (gameState a) ->
  scoreTotal (gameState (step a e)) = currentRound (gameState (step a e)).
Proof.
  intros H. rewrite gameState_step.
  destruct e as [m | mv cm | | | timer m1 m2].
  - reflexivity.
  - unfold handleHumanMove.
    destruct (isPlaying (callbackEnv a)); cbn [negb afterHandler applyAction];
      [| exact H].
    rewrite roundUpdater_total, roundUpdater_round. lia.
  - exact H.
  - reflexivity.
  - destruct (timers a !! timer) as [env |]; [| exact H].
    unfold handleComputerVsComputer.
    destruct (isPlaying env); cbn [negb afterHandler applyAction];
      [| exact H].
    rewrite roundUpdater_total, roundUpdater_round. lia.
Qed.

Lemma balanced_run es a :
  scoreTotal (gameState a) = currentRound (gameState a) ->
  scoreTotal (gameState (run a es)) = currentRound (gameState (run a es)).
Proof.
  revert a. induction es as [| e es IH]; intros a H; simpl.
  - exact H.
  - apply IH, balanced_step, H.
Qed.

(** C2. A completed round adds exactly 1 to the round counter and exactly 1
    to exactly one of the three score counters; an event that completes a
    round applies that update to the session state; hence in every state
    reachable from the mounted component the three scores add up to the
    round counter. *)
Theorem round_accounting :
  (forall result prev,
      currentRound (roundUpdater result prev) = currentRound prev + 1
      /\ oneScoreIncremented prev (roundUpdater result prev))
  /\ (forall a e result,
         completedRound a e = Some result ->
         gameState (step a e) = roundUpdater result (gameState a))
  /\ (forall es,
         scoreTotal (gameState (run mount es))
         = currentRound (gameState (run mount es))).
Proof.
  split; [| split].
  - intros result prev. split.
    + apply roundUpdater_round.
    + apply roundUpdater_one_score.
  - apply completedRound_step.
  - intros es. apply balanced_run. reflexivity.
Qed.

Lemma round_accounting_witness :
  let a := run mount [ClickStart] in
  let e := ClickMove paper scissors in
  completedRound a e = Some (playRound paper scissors)
  /\ currentRound (gameState (step a e)) = currentRound (gameState a) + 1
  /\ oneScoreIncremented (gameState a) (gameState (step a e)).
Proof.
  intros a e.
  assert (H : completedRound a e = Some (playRound paper scissors))
    by reflexivity.
  destruct round_accounting as (Hupd & Hstep & _).
  split; [exact H |].
  rewrite (Hstep a e _ H).
  apply Hupd.
Defined.

(** C5. New-game and change-mode both zero the round counter and the three
    score counters and leave the session not playing; new-game keeps the
    mode, change-mode records the mode that was selected. This holds for
    the handlers run against any state, and so for the two clicks on any
    mounted component. *)
Theorem reset_operations :
  (forall s m,
      let afterReset := afterHandler resetGame s in
      let afterMode := afterHandler (handleModeChange m) s in
      countersZero afterReset
      /\ isPlaying afterReset = false
      /\ mode afterReset = mode s
      /\ countersZero afterMode
      /\ isPlaying afterMode = false
      /\ mode afterMode = m)
  /\ (forall a m,
         gameState (step a ClickReset) = afterHandler resetGame (gameState a)
         /\ gameState (step a (ClickMode m))
            = afterHandler (handleModeChange m) (gameState a)).
Proof.
  split.
  - intros s m. cbn. unfold countersZero. cbn. repeat split; reflexivity.
  - intros a m. split; apply gameState_step.
Qed.

(** C6. In a freshly started human-vs-computer session (the mounted
    component, or any component on which the human-vs-computer mode has just
    been selected), starting a round and playing rock while the computer
    draws scissors leaves round counter 1, player-1 score 1, the other two
    counters 0, playing false and the last result
    (player1, rock, scissors). *)
Theorem human_round_scenario :
  let expected :=
    {| mode := human_vs_computer;
       currentRound := 1;
       scores :=
         {| Scores.player1 := 1; Scores.player2 := 0; Scores.ties := 0 |};
       lastResult :=
         Some {| winner := player1;
                 player1Move := rock;
                 player2Move := scissors |};
       isPlaying := false |} in
  gameState (run mount [ClickStart; ClickMove rock scissors]) = expected
  /\ (forall a,
         gameState (run (step a (ClickMode human_vs_computer))
                        [ClickStart; ClickMove rock scissors])
         = expected).
Proof.
  intros expected. split.
  - reflexivity.
  - intros a.
    set (a0 := step a (ClickMode human_vs_computer)).
    assert (H0 : gameState a0 = afterHandler (handleModeChange human_vs_computer) (gameState a))
      by apply gameState_step.
    simpl in H0.
    set (a1 := step a0 ClickStart).
    assert (H1 : gameState a1 = afterHandler startNewRound (gameState a0))
      by apply gameState_step.
    rewrite H0 in H1. simpl in H1.
    assert (Henv : isPlaying (callbackEnv a1) = true).
    { unfold a1. simpl. unfold render. rewrite H0. reflexivity. }
    change (gameState (step a1 (ClickMove rock scissors)) = expected).
    rewrite gameState_step. unfold handleHumanMove.
    rewrite Henv, H1. reflexivity.
Qed.

(** C8. Start-round sets playing to true and clears the last result, and it
    leaves the mode, the round counter and the three scores as they were,
    whatever the state it is run against. *)
Theorem startNewRound_frame :
  (forall s,
      let s' := afterHandler startNewRound s in
      isPlaying s' = true
      /\ lastResult s' = None
      /\ mode s' = mode s
      /\ currentRound s' = currentRound s
      /\ scores s' = scores s)
  /\ (forall a,
         gameState (step a ClickStart)
         = afterHandler startNewRound (gameState a)).
Proof.
  split.
  - intros s. cbn. repeat split; reflexivity.
  - intros a. apply gameState_step.
Qed.

(** ** Monotone counters *)

Lemma countersLe_refl s : countersLe s s.
Proof. unfold countersLe. lia. Qed.

Lemma countersLe_roundUpdater result prev :
  countersLe prev (roundUpdater result prev).
Proof.
  unfold countersLe, roundUpdater; simpl.
  destruct (winner result) as [[|] |]; simpl; lia.
Qed.

Lemma countersLe_afterRound (g : GameState) result prev :
  countersLe prev
    (afterHandler
       (if negb (isPlaying g) then None
        else Some (SetUpdater (roundUpdater result))) prev).
Proof.
  destruct (isPlaying g); cbn [negb afterHandler applyAction].
  - apply countersLe_roundUpdater.
  - apply countersLe_refl.
Qed.

(** C9 as the specification states it, with new-game the one operation under
    which the counters may fall, fails on a mode change after one round: the
    round counter is 1 after the round and 0 after the click on a mode
    button, which is not the new-game action. *)
Lemma mode_change_lowers_counters :
  currentRound (gameState (run mount [ClickStart; ClickMove rock scissors]))
  = 1
  /\ currentRound
       (gameState (step (run mount [ClickStart; ClickMove rock scissors])
                        (ClickMode human_vs_computer)))
     = 0
  /\ ~ (forall a e,
          e <> ClickReset ->
          countersLe (gameState a) (gameState (step a e))).
Proof.
  split; [reflexivity |]. split; [reflexivity |].
  intros H.
  specialize (H (run mount [ClickStart; ClickMove rock scissors])
                (ClickMode human_vs_computer)).
  destruct H as [H _]; [discriminate |].
  vm_compute in H. apply H. reflexivity.
Qed.

(** C9, amended. The round counter and the three score counters never
    decrease under start-round, a human move or a timer firing; they are set
    back to zero together by exactly two operations, new-game and
    change-mode. *)
Theorem counters_monotone_or_reset :
  forall a e,
    if startsOver e
    then countersZero (gameState (step a e))
    else countersLe (gameState a) (gameState (step a e)).
Proof.
  intros a e. rewrite gameState_step.
  destruct e as [m | mv cm | | | timer m1 m2]; cbn [startsOver].
  - unfold countersZero. cbn. repeat split; reflexivity.
  - apply countersLe_afterRound.
  - unfold countersLe. cbn. lia.
  - unfold countersZero. cbn. repeat split; reflexivity.
  - destruct (timers a !! timer) as [env |].
    + apply countersLe_afterRound.
    + apply countersLe_refl.
Qed.

(** ** The invariant of the hooks *)

Lemma GameMode_eqb_eq a b : GameMode_eqb a b = true <-> a = b.
Proof. destruct a, b; simpl; split; congruence. Qed.

Lemma runCleanup_lookup_None cleanup (pending : gmap nat GameState) t :
  pending !! t = None -> runCleanup cleanup pending !! t = None.
Proof.
  intros H. destruct cleanup as [c |]; simpl; [| exact H].
  rewrite lookup_delete. destruct (decide (c = t)); [reflexivity | exact H].
Qed.

(** Under the invariant the clean-up leaves no timer pending. *)
Lemma runCleanup_wf a t :
  wf a -> runCleanup (effectCleanup a) (timers a) !! t = None.
Proof.
  intros (_ & Htim & _).
  destruct (timers a !! t) as [env |] eqn:Ht.
  - destruct (Htim t env Ht) as (Hc & _). rewrite Hc. simpl.
    apply lookup_delete_eq.
  - apply runCleanup_lookup_None, Ht.
Qed.

Lemma wf_mount : wf mount.
Proof.
  unfold wf, mount; simpl. split; [reflexivity |]. split.
  - intros timer env H. rewrite lookup_empty in H. discriminate H.
  - intros timer H. discriminate H.
Qed.

Lemma wf_render a next : wf a -> wf (render a next).
Proof.
  intros Hwf. pose proof Hwf as (Henv & Htim & Hclean).
  pose proof (runCleanup_wf a) as Hnone.
  unfold render.
  destruct (negb (Bool.eqb (isPlaying next) (isPlaying (gameState a))))
    eqn:Echg; cbn [orb].
  - (* isPlaying changed: new callbacks, clean-up, effect *)
    destruct (GameMode_eqb (mode next) computer_vs_computer && isPlaying next)
      eqn:Ecvc.
    + apply andb_true_iff in Ecvc as [Em Ep]. apply GameMode_eqb_eq in Em.
      unfold wf; simpl. split; [reflexivity |]. split.
      * intros timer env. rewrite lookup_insert.
        destruct (decide (nextTimer a = timer)) as [<- | Hne].
        -- intros [= <-]. auto.
        -- rewrite Hnone by assumption. discriminate.
      * intros timer [= <-]. lia.
    + unfold wf; simpl. split; [reflexivity |]. split.
      * intros timer env. rewrite Hnone by assumption. discriminate.
      * discriminate.
  - (* isPlaying unchanged: the callbacks are kept *)
    apply negb_false_iff in Echg. apply Bool.eqb_prop in Echg.
    rewrite Nat.eqb_refl. cbn [negb orb]. rewrite orb_false_r.
    destruct (GameMode_eqb (mode next) (mode (gameState a))) eqn:Emode;
      cbn [negb].
    + apply GameMode_eqb_eq in Emode.
      unfold wf; simpl. split; [congruence |]. split.
      * intros timer env Ht. destruct (Htim timer env Ht) as (? & ? & ? & ?).
        repeat split; congruence.
      * exact Hclean.
    + destruct (GameMode_eqb (mode next) computer_vs_computer && isPlaying next)
        eqn:Ecvc.
      * apply andb_true_iff in Ecvc as [Em Ep]. apply GameMode_eqb_eq in Em.
        unfold wf; simpl. split; [congruence |]. split.
        -- intros timer env. rewrite lookup_insert.
           destruct (decide (nextTimer a = timer)) as [<- | Hne].
           ++ intros [= <-]. repeat split; congruence.
           ++ rewrite Hnone by assumption. discriminate.
        -- intros timer [= <-]. lia.
      * unfold wf; simpl. split; [congruence |]. split.
        -- intros timer env. rewrite Hnone by assumption. discriminate.
        -- discriminate.
Qed.

Lemma wf_dispatch a act : wf a -> wf (dispatch a act).
Proof. intros H. destruct act; simpl; [apply wf_render |]; exact H. Qed.

Lemma wf_step a e : wf a -> wf (step a e).
Proof.
  intros Hwf.
  destruct e as [m | mv cm | | | timer m1 m2]; cbn [step];
    try (apply wf_dispatch; exact Hwf).
  destruct (timers a !! timer) as [env |] eqn:Ht; [| exact Hwf].
  apply wf_dispatch.
  destruct Hwf as (Henv & Htim & Hclean).
  unfold wf; simpl. split; [exact Henv |]. split; [| exact Hclean].
  intros t env'. rewrite lookup_delete.
  destruct (decide (timer = t)); [discriminate |]. apply Htim.
Qed.

Lemma wf_run es a : wf a -> wf (run a es).
Proof.
  revert a. induction es as [| e es IH]; intros a H; simpl.
  - exact H.
  - apply IH, wf_step, H.
Qed.

Lemma wf_reachable es : wf (run mount es).
Proof. apply wf_run, wf_mount. Qed.

(** ** A cleared timer stays cleared *)

Lemma spent_render t a next : spent t a -> spent t (render a next).
Proof.
  intros [Hlt Hnone]. unfold render.
  pose proof (runCleanup_lookup_None (effectCleanup a) (timers a) t Hnone)
    as Hcl.
  repeat match goal with |- context [if ?c then _ else _] => destruct c end;
    unfold spent; simpl; (split; [lia |]); try assumption.
  all: rewrite lookup_insert_ne by lia; assumption.
Qed.

Lemma spent_dispatch t a act : spent t a -> spent t (dispatch a act).
Proof. intros H. destruct act; simpl; [apply spent_render |]; exact H. Qed.

Lemma spent_step t a e : spent t a -> spent t (step a e).
Proof.
  intros Hs.
  destruct e as [m | mv cm | | | timer m1 m2]; cbn [step];
    try (apply spent_dispatch; exact Hs).
  destruct (timers a !! timer) as [env |] eqn:Ht; [| exact Hs].
  apply spent_dispatch.
  destruct Hs as [Hlt Hnone]. unfold spent; simpl. split; [exact Hlt |].
  rewrite lookup_delete. destruct (decide (timer = t)); [reflexivity | exact Hnone].
Qed.

Lemma spent_run t es a : spent t a -> spent t (run a es).
Proof.
  revert a. induction es as [| e es IH]; intros a H; simpl.
  - exact H.
  - apply IH, spent_step, H.
Qed.

(** A render that stops playing runs the clean-up and schedules nothing. *)
Lemma render_stops a next :
  isPlaying (gameState a) = true ->
  isPlaying next = false ->
  timers (render a next) = runCleanup (effectCleanup a) (timers a)
  /\ nextTimer (render a next) = nextTimer a.
Proof.
  intros Hp Hn. unfold render. rewrite Hp, Hn. cbn [Bool.eqb negb orb].
  rewrite andb_false_r. split; reflexivity.
Qed.

(** Starting over while a timer is pending runs the clean-up, which clears
    it, and schedules nothing. *)
Lemma startsOver_clears a e t env :
  wf a -> timers a !! t = Some env -> startsOver e = true ->
  timers (step a e) = ∅ /\ spent t (step a e).
Proof.
  intros Hwf Ht He.
  pose proof Hwf as (Henv & Htim & Hclean).
  destruct (Htim t env Ht) as (Hc & _ & Hplay & _).
  pose proof (runCleanup_wf a) as Hnone.
  assert (Hstep : timers (step a e) = runCleanup (effectCleanup a) (timers a)
                  /\ nextTimer (step a e) = nextTimer a).
  { destruct e as [m | mv cm | | | timer m1 m2]; try discriminate He;
      cbn [step dispatch handleModeChange resetGame];
      apply render_stops; (exact Hplay || reflexivity). }
  destruct Hstep as [Htimers Hnext].
  split.
  - apply map_empty. intros i. rewrite Htimers. apply Hnone, Hwf.
  - split.
    + rewrite Hnext. apply Hclean, Hc.
    + rewrite Htimers. apply Hnone, Hwf.
Qed.

(** Three scenarios of the component's test suite: a tie, a new game after
    one round, and an automatic round in computer-vs-computer mode. *)
Lemma app_test_tie :
  Scores.ties (scores (gameState (run mount [ClickStart; ClickMove rock rock])))
  = 1
  /\ (winner <$> lastResult
                   (gameState (run mount [ClickStart; ClickMove rock rock])))
     = Some tie.
Proof. split; reflexivity. Qed.

Lemma app_test_new_game :
  gameState (run mount [ClickStart; ClickMove rock scissors; ClickReset])
  = initialGameState.
Proof. reflexivity. Qed.

Lemma app_test_automatic_round :
  (winner <$> lastResult
                (gameState
                   (run mount [ClickMode computer_vs_computer; ClickStart;
                               TimerFires 0 rock scissors])))
  = Some (won player1)
  /\ timers (run mount [ClickMode computer_vs_computer; ClickStart;
                        TimerFires 0 rock scissors])
     = ∅.
Proof. split; reflexivity. Qed.

(** C7. Stale-completion cancellation. Let an automatic resolution be
    pending on a reachable component (which then is playing in
    computer-vs-computer mode). If the mode is switched or the session is
    reset, the clean-up of the effect clears the timer: no timer is pending
    afterwards, the cleared one is never pending again whatever happens
    next, and so its callback never runs: at any later point its firing is
    not a step of the component and the session state (scores, round
    counter, last result) stays as it is. *)
Theorem stale_timer_never_fires :
  forall es t env e es' m1 m2,
    timers (run mount es) !! t = Some env ->
    startsOver e = true ->
    mode (gameState (run mount es)) = computer_vs_computer
    /\ timers (step (run mount es) e) = ∅
    /\ timers (run (step (run mount es) e) es') !! t = None
    /\ completedRound (run (step (run mount es) e) es') (TimerFires t m1 m2)
       = None
    /\ step (run (step (run mount es) e) es') (TimerFires t m1 m2)
       = run (step (run mount es) e) es'.
Proof.
  intros es t env e es' m1 m2 Ht He.
  pose proof (wf_reachable es) as Hwf.
  destruct (startsOver_clears _ _ _ _ Hwf Ht He) as [Hempty Hspent].
  pose proof (spent_run t es' _ Hspent) as [_ Hnone].
  destruct Hwf as (_ & Htim & _).
  destruct (Htim t env Ht) as (_ & _ & _ & Hmode).
  split; [exact Hmode |]. split; [exact Hempty |]. split; [exact Hnone |].
  cbn [completedRound step]. rewrite Hnone. split; reflexivity.
Qed.

Lemma stale_timer_never_fires_witness :
  timers (run mount [ClickMode computer_vs_computer; ClickStart]) !! 0%nat
  = Some (gameState (run mount [ClickMode computer_vs_computer; ClickStart]))
  /\ startsOver (ClickMode human_vs_computer) = true
  /\ step (run (step (run mount [ClickMode computer_vs_computer; ClickStart])
                     (ClickMode human_vs_computer))
               [ClickStart])
          (TimerFires 0 rock paper)
     = run (step (run mount [ClickMode computer_vs_computer; ClickStart])
                 (ClickMode human_vs_computer))
           [ClickStart].
Proof.
  assert (Ht : timers (run mount [ClickMode computer_vs_computer; ClickStart])
               !! 0%nat
               = Some (gameState
                         (run mount [ClickMode computer_vs_computer; ClickStart])))
    by reflexivity.
  assert (He : startsOver (ClickMode human_vs_computer) = true)
    by reflexivity.
  split; [exact Ht |]. split; [exact He |].
  apply (stale_timer_never_fires
           [ClickMode computer_vs_computer; ClickStart] 0%nat _
           (ClickMode human_vs_computer) [ClickStart] rock paper Ht He).
Defined.

(** C10. The guard of the round-completing handlers. A handler created by a
    render that was not playing returns before calling [setGameState], so the
    state it runs against is left untouched. On a reachable component that
    is not playing, a click on a move, a call of the current
    [handleComputerVsComputer] and the firing of any timer all leave the
    whole component, and with it the whole session state, unchanged. *)
Theorem guard_when_not_playing :
  (forall g prev move computerMove player1Move player2Move,
      isPlaying g = false ->
      handleHumanMove g move computerMove = None
      /\ handleComputerVsComputer g player1Move player2Move = None
      /\ afterHandler (handleHumanMove g move computerMove) prev = prev
      /\ afterHandler (handleComputerVsComputer g player1Move player2Move) prev
         = prev)
  /\ (forall es move computerMove timer player1Move player2Move,
         isPlaying (gameState (run mount es)) = false ->
         step (run mount es) (ClickMove move computerMove) = run mount es
         /\ dispatch (run mount es)
              (handleComputerVsComputer (callbackEnv (run mount es))
                 player1Move player2Move)
            = run mount es
         /\ step (run mount es) (TimerFires timer player1Move player2Move)
            = run mount es).
Proof.
  split.
  - intros g prev mv cm m1 m2 Hg.
    unfold handleHumanMove, handleComputerVsComputer. rewrite Hg.
    repeat split; reflexivity.
  - intros es mv cm timer m1 m2 Hidle.
    destruct (wf_reachable es) as (Henv & Htim & _).
    rewrite <- Henv in Hidle.
    cbn [step]. unfold handleHumanMove, handleComputerVsComputer.
    rewrite Hidle. cbn [negb dispatch].
    split; [reflexivity |]. split; [reflexivity |].
    destruct (timers (run mount es) !! timer) as [env |] eqn:Ht;
      [| reflexivity].
    destruct (Htim timer env Ht) as (_ & _ & Hplay & _).
    congruence.
Qed.

Lemma guard_when_not_playing_witness :
  isPlaying (gameState (run mount [ClickStart; ClickMove rock rock])) = false
  /\ step (run mount [ClickStart; ClickMove rock rock]) (ClickMove paper rock)
     = run mount [ClickStart; ClickMove rock rock]
  /\ handleHumanMove initialGameState paper rock = None.
Proof.
  assert (H : isPlaying
                (gameState (run mount [ClickStart; ClickMove rock rock]))
              = false) by reflexivity.
  destruct guard_when_not_playing as [Hhandler Happ].
  split; [exact H |]. split.
  - apply (Happ [ClickStart; ClickMove rock rock] paper rock 0%nat rock rock H).
  - apply (Hhandler initialGameState initialGameState paper rock rock rock).
    reflexivity.
Defined.

(* ===================================================================== *)
(** * Further properties of the component                                 *)
(* ===================================================================== *)

(** ** When the effect runs again *)

(** A render that changes neither [isPlaying] nor [mode] keeps the
    callbacks, does not run the effect and leaves the timers alone. *)
Lemma render_unchanged a next :
  isPlaying next = isPlaying (gameState a) ->
  mode next = mode (gameState a) ->
  render a next
  = {| gameState := next;
       callbackEnv := callbackEnv a;
       callbackGen := callbackGen a;
       effectCleanup := effectCleanup a;
       timers := timers a;
       nextTimer := nextTimer a |}.
Proof.
  intros Hp Hm. unfold render. rewrite Hp, Hm.
  rewrite Bool.eqb_reflx. cbn [negb orb].
  rewrite Nat.eqb_refl.
  replace (GameMode_eqb (mode (gameState a)) (mode (gameState a))) with true
    by (destruct (mode (gameState a)); reflexivity).
  reflexivity.
Qed.

(** A render that changes one of them runs the clean-up and then the
    effect. *)
Lemma render_changed a next :
  isPlaying next <> isPlaying (gameState a)
  \/ mode next <> mode (gameState a) ->
  render a next
  = (let changed :=
       negb (Bool.eqb (isPlaying next) (isPlaying (gameState a))) in
     let env := if changed then next else callbackEnv a in
     let gen := if changed then S (callbackGen a) else callbackGen a in
     let pending := runCleanup (effectCleanup a) (timers a) in
     if GameMode_eqb (mode next) computer_vs_computer && isPlaying next
     then {| gameState := next;
             callbackEnv := env;
             callbackGen := gen;
             effectCleanup := Some (nextTimer a);
             timers := <[nextTimer a := env]> pending;
             nextTimer := S (nextTimer a) |}
     else {| gameState := next;
             callbackEnv := env;
             callbackGen := gen;
             effectCleanup := None;
             timers := pending;
             nextTimer := nextTimer a |}).
Proof.
  intros H. unfold render.
  destruct (negb (Bool.eqb (isPlaying next) (isPlaying (gameState a))))
    eqn:Echg; cbn [orb]; [reflexivity |].
  apply negb_false_iff in Echg. apply Bool.eqb_prop in Echg.
  destruct H as [H | H]; [contradiction |].
  destruct (GameMode_eqb (mode next) (mode (gameState a))) eqn:Em.
  - apply GameMode_eqb_eq in Em. contradiction.
  - reflexivity.
Qed.

(** ** Exactly one timer while the computers are playing *)

Lemma runCleanup_scheduled a :
  scheduled a -> runCleanup (effectCleanup a) (timers a) = ∅.
Proof.
  unfold scheduled.
  destruct (GameMode_eqb (mode (gameState a)) computer_vs_computer
            && isPlaying (gameState a)).
  - intros (timer & -> & ->). simpl. apply delete_singleton_eq.
  - intros [-> ->]. reflexivity.
Qed.

Lemma scheduled_render a next :
  runCleanup (effectCleanup a) (timers a) = ∅ ->
  (isPlaying next = isPlaying (gameState a) ->
   mode next = mode (gameState a) -> scheduled a) ->
  scheduled (render a next).
Proof.
  intros Hclean Hsame.
  destruct (decide (isPlaying next = isPlaying (gameState a))) as [Hp | Hp];
    [destruct (decide (mode next = mode (gameState a))) as [Hm | Hm] |].
  - rewrite (render_unchanged a next Hp Hm).
    specialize (Hsame Hp Hm). unfold scheduled in *. simpl.
    rewrite Hp, Hm. exact Hsame.
  - rewrite (render_changed a next (or_intror Hm)). cbn zeta.
    rewrite Hclean, Hp, Bool.eqb_reflx. cbn [negb].
    unfold scheduled.
    destruct (GameMode_eqb (mode next) computer_vs_computer
              && isPlaying (gameState a)) eqn:E; simpl; rewrite Hp, E.
    + exists (nextTimer a). split; [reflexivity | apply insert_empty].
    + split; reflexivity.
  - rewrite (render_changed a next (or_introl Hp)). cbn zeta.
    rewrite Hclean.
    replace (negb (Bool.eqb (isPlaying next) (isPlaying (gameState a))))
      with true
      by (destruct (isPlaying next), (isPlaying (gameState a));
          simpl; congruence).
    unfold scheduled.
    destruct (GameMode_eqb (mode next) computer_vs_computer
              && isPlaying next) eqn:E; simpl; rewrite E.
    + exists (nextTimer a). split; [reflexivity | apply insert_empty].
    + split; reflexivity.
Qed.

Lemma scheduled_dispatch a act : scheduled a -> scheduled (dispatch a act).
Proof.
  intros H. destruct act as [x |]; simpl; [| exact H].
  apply scheduled_render; [apply runCleanup_scheduled, H | intros _ _; exact H].
Qed.

Lemma scheduled_step a e : wf a -> scheduled a -> scheduled (step a e).
Proof.
  intros Hwf Hs.
  destruct e as [m | mv cm | | | timer m1 m2]; cbn [step];
    try (apply scheduled_dispatch; exact Hs).
  destruct (timers a !! timer) as [env |] eqn:Ht; [| exact Hs].
  destruct Hwf as (_ & Htim & _).
  destruct (Htim timer env Ht) as (Hc & Henv & Hplay & Hmode).
  unfold handleComputerVsComputer. rewrite Henv. cbn [negb dispatch applyAction].
  apply scheduled_render; simpl.
  - rewrite Hc. simpl. unfold scheduled in Hs.
    rewrite Hmode, Hplay in Hs. simpl in Hs.
    destruct Hs as (c & Hc' & ->). rewrite Hc in Hc'. injection Hc' as <-.
    rewrite delete_singleton_eq. apply delete_empty.
  - rewrite Hplay. discriminate.
Qed.

Lemma scheduled_run es a : wf a -> scheduled a -> scheduled (run a es).
Proof.
  revert a. induction es as [| e es IH]; intros a Hwf Hs; simpl.
  - exact Hs.
  - apply IH; [apply wf_step, Hwf | apply scheduled_step; assumption].
Qed.

Lemma scheduled_reachable es : scheduled (run mount es).
Proof. apply scheduled_run; [apply wf_mount | split; reflexivity]. Qed.

(** X1. On every reachable component exactly one timer is pending while the
    session is playing in computer-vs-computer mode, the one that the
    clean-up of the effect will clear, and no timer is pending in any other
    state: the waiting notice is never on screen without a resolution on its
    way, and never are two resolutions on their way. *)
Theorem one_timer_while_computers_play :
  forall es,
    scheduled (run mount es)
    /\ size (timers (run mount es))
       = (if GameMode_eqb (mode (gameState (run mount es)))
                computer_vs_computer
             && isPlaying (gameState (run mount es))
          then 1%nat else 0%nat).
Proof.
  intros es. pose proof (scheduled_reachable es) as Hs.
  split; [exact Hs |].
  unfold scheduled in Hs.
  destruct (GameMode_eqb (mode (gameState (run mount es))) computer_vs_computer
            && isPlaying (gameState (run mount es))).
  - destruct Hs as (timer & _ & ->). apply map_size_singleton.
  - destruct Hs as [_ ->]. apply map_size_empty.
Qed.

(** ** Soundness of the session state *)

Lemma sound_roundUpdater move1 move2 prev :
  sound prev -> sound (roundUpdater (playRound move1 move2) prev).
Proof.
  unfold sound, roundUpdater; simpl.
  intros (Hr & H1 & H2 & Ht & _).
  destruct (determineWinner move1 move2) as [[|] |]; simpl;
    repeat split; lia.
Qed.

Lemma sound_afterRound (g : GameState) move1 move2 prev :
  sound prev ->
  sound (afterHandler
           (if negb (isPlaying g) then None
            else Some (SetUpdater (roundUpdater (playRound move1 move2))))
           prev).
Proof.
  intros H. destruct (isPlaying g); cbn [negb afterHandler applyAction].
  - apply sound_roundUpdater, H.
  - exact H.
Qed.

Lemma sound_step a e : sound (gameState a) -> sound (gameState (step a e)).
Proof.
  intros H. rewrite gameState_step.
  destruct e as [m | mv cm | | | timer m1 m2].
  - unfold sound; simpl. repeat split; try lia; try (right; reflexivity).
  - apply sound_afterRound, H.
  - destruct H as (Hr & H1 & H2 & Ht & _).
    unfold sound; simpl. repeat split; try assumption. left; reflexivity.
  - unfold sound; simpl. repeat split; try lia; try (right; reflexivity).
  - destruct (timers a !! timer) as [env |]; [| exact H].
    apply sound_afterRound, H.
Qed.

Lemma sound_run es a : sound (gameState a) -> sound (gameState (run a es)).
Proof.
  revert a. induction es as [| e es IH]; intros a H; simpl.
  - exact H.
  - apply IH, sound_step, H.
Qed.

Lemma sound_reachable es : sound (gameState (run mount es)).
Proof.
  apply sound_run. unfold sound; simpl.
  repeat split; try lia; try (right; reflexivity).
Qed.

Lemma scores_zero_iff es :
  currentRound (gameState (run mount es)) = 0
  <-> Scores.player1 (scores (gameState (run mount es))) = 0
      /\ Scores.player2 (scores (gameState (run mount es))) = 0
      /\ Scores.ties (scores (gameState (run mount es))) = 0.
Proof.
  destruct (sound_reachable es) as (Hr & H1 & H2 & Ht & _).
  assert (Hsum : scoreTotal (gameState (run mount es))
                 = currentRound (gameState (run mount es)))
    by (apply balanced_run; reflexivity).
  unfold scoreTotal in Hsum. lia.
Qed.

(** X2. In every reachable state each of the three score counters lies
    between 0 and the round counter, and the round counter is 0 exactly when
    the three scores are 0. *)
Theorem scores_within_rounds :
  forall es,
    0 <= Scores.player1 (scores (gameState (run mount es)))
      <= currentRound (gameState (run mount es))
    /\ 0 <= Scores.player2 (scores (gameState (run mount es)))
         <= currentRound (gameState (run mount es))
    /\ 0 <= Scores.ties (scores (gameState (run mount es)))
         <= currentRound (gameState (run mount es))
    /\ (currentRound (gameState (run mount es)) = 0
        <-> Scores.player1 (scores (gameState (run mount es))) = 0
            /\ Scores.player2 (scores (gameState (run mount es))) = 0
            /\ Scores.ties (scores (gameState (run mount es))) = 0).
Proof.
  intros es.
  destruct (sound_reachable es) as (Hr & H1 & H2 & Ht & _).
  assert (Hsum : scoreTotal (gameState (run mount es))
                 = currentRound (gameState (run mount es)))
    by (apply balanced_run; reflexivity).
  unfold scoreTotal in Hsum. lia.
Qed.

(** X3. In every reachable state a stored last result is consistent and
    timely: its winner is what [determineWinner] answers on the two moves
    stored with it, no round is in progress and at least one round has been
    counted. When no result is stored, a round is in progress or the round
    counter is 0. *)
Theorem last_result_consistent :
  forall es,
    match lastResult (gameState (run mount es)) with
    | Some result =>
        winner result
        = determineWinner (player1Move result) (player2Move result)
        /\ isPlaying (gameState (run mount es)) = false
        /\ 0 < currentRound (gameState (run mount es))
    | None =>
        isPlaying (gameState (run mount es)) = true
        \/ currentRound (gameState (run mount es)) = 0
    end.
Proof.
  intros es. destruct (sound_reachable es) as (_ & _ & _ & _ & H). exact H.
Qed.

(** ** The memoized handlers *)

(** X4. Memoization is transparent. On every reachable component the
    memoized [handleHumanMove] and [handleComputerVsComputer], and the
    callback of every pending timer, do what handlers created by the current
    render would do, although the snapshot they close over can be an older
    state than the current one. *)
Theorem memoized_handlers_current :
  (forall es move computerMove player1Move player2Move,
      handleHumanMove (callbackEnv (run mount es)) move computerMove
      = handleHumanMove (gameState (run mount es)) move computerMove
      /\ handleComputerVsComputer (callbackEnv (run mount es))
           player1Move player2Move
         = handleComputerVsComputer (gameState (run mount es))
             player1Move player2Move
      /\ forall timer,
           match timers (run mount es) !! timer with
           | Some env =>
               handleComputerVsComputer env player1Move player2Move
               = handleComputerVsComputer (gameState (run mount es))
                   player1Move player2Move
           | None => True
           end)
  /\ callbackEnv
       (run mount [ClickStart; ClickMove rock scissors;
                   ClickMode human_vs_computer])
     <> gameState
          (run mount [ClickStart; ClickMove rock scissors;
                      ClickMode human_vs_computer]).
Proof.
  split.
  - intros es mv cm m1 m2.
    destruct (wf_reachable es) as (Henv & Htim & _).
    unfold handleHumanMove, handleComputerVsComputer. rewrite Henv.
    split; [reflexivity |]. split; [reflexivity |].
    intros timer.
    destruct (timers (run mount es) !! timer) as [env |] eqn:Ht; [| exact I].
    destruct (Htim timer env Ht) as (_ & He & Hp & _).
    rewrite He, Hp. reflexivity.
  - vm_compute. discriminate.
Qed.

(** ** Events that the rendered component can receive *)

Lemma moveButtons_shown s move :
  includes (moveButtons (view s)) move = true ->
  mode s = human_vs_computer /\ isPlaying s = true.
Proof.
  unfold view; simpl.
  destruct (GameMode_eqb (mode s) human_vs_computer) eqn:Em;
    destruct (isPlaying s); simpl; try discriminate.
  intros _. apply GameMode_eqb_eq in Em. split; [exact Em | reflexivity].
Qed.

Lemma includes_MOVES move : includes MOVES move = true.
Proof. destruct move; reflexivity. Qed.

Lemma enabled_move_round es move computerMove :
  enabled (run mount es) (ClickMove move computerMove) = true ->
  mode (gameState (run mount es)) = human_vs_computer
  /\ completedRound (run mount es) (ClickMove move computerMove)
     = Some (playRound move computerMove).
Proof.
  intros He. destruct (wf_reachable es) as (Henv & _).
  cbn [enabled] in He. apply moveButtons_shown in He as [Hm Hp].
  split; [exact Hm |].
  cbn [completedRound]. rewrite Henv, Hp. reflexivity.
Qed.

Lemma enabled_timer_round es timer player1Move player2Move :
  enabled (run mount es) (TimerFires timer player1Move player2Move) = true ->
  mode (gameState (run mount es)) = computer_vs_computer
  /\ completedRound (run mount es) (TimerFires timer player1Move player2Move)
     = Some (playRound player1Move player2Move).
Proof.
  intros He. destruct (wf_reachable es) as (_ & Htim & _).
  cbn [enabled] in He.
  destruct (timers (run mount es) !! timer) as [env |] eqn:Ht;
    [| discriminate He].
  destruct (Htim timer env Ht) as (_ & Hplay & _ & Hm).
  split; [exact Hm |].
  cbn [completedRound]. rewrite Ht, Hplay. reflexivity.
Qed.



(** ** Repeated actions *)

Lemma App_eta a :
  a = {| gameState := gameState a;
         callbackEnv := callbackEnv a;
         callbackGen := callbackGen a;
         effectCleanup := effectCleanup a;
         timers := timers a;
         nextTimer := nextTimer a |}.
Proof. destruct a; reflexivity. Qed.

(** Rendering again with the state already rendered changes nothing. *)
Lemma render_same a next : next = gameState a -> render a next = a.
Proof.
  intros ->. rewrite render_unchanged by reflexivity. symmetry. apply App_eta.
Qed.

Lemma step_reachable es e : step (run mount es) e = run mount (es ++ [e]).
Proof. symmetry. apply run_snoc. Qed.

(** X6. Repeating an action has no further effect. On every reachable
    component a second click on the start button, on a move button, on the
    new-game button or on the same mode button, and a second firing of the
    same timer, leave the component exactly as the first one left it: no
    second round is counted and no second timer is scheduled. *)
Theorem repeated_action_is_ignored :
  forall es,
    step (step (run mount es) ClickStart) ClickStart
    = step (run mount es) ClickStart
    /\ step (step (run mount es) ClickReset) ClickReset
       = step (run mount es) ClickReset
    /\ (forall m,
           step (step (run mount es) (ClickMode m)) (ClickMode m)
           = step (run mount es) (ClickMode m))
    /\ (forall move computerMove move' computerMove',
           step (step (run mount es) (ClickMove move computerMove))
             (ClickMove move' computerMove')
           = step (run mount es) (ClickMove move computerMove))
    /\ (forall timer player1Move player2Move player1Move' player2Move',
           step (step (run mount es)
                   (TimerFires timer player1Move player2Move))
             (TimerFires timer player1Move' player2Move')
           = step (run mount es) (TimerFires timer player1Move player2Move)).
Proof.
  intros es. set (a := run mount es).
  split; [| split; [| split; [| split]]].
  - cbn [step dispatch startNewRound applyAction].
    apply render_same. rewrite gameState_render. reflexivity.
  - cbn [step dispatch resetGame applyAction].
    apply render_same. rewrite gameState_render. reflexivity.
  - intros m. cbn [step dispatch handleModeChange applyAction].
    apply render_same. rewrite gameState_render. reflexivity.
  - intros mv cm mv' cm'.
    pose proof (wf_reachable (es ++ [ClickMove mv cm])) as (Henv & _).
    rewrite <- step_reachable in Henv. fold a in Henv.
    set (a1 := step a (ClickMove mv cm)) in *.
    cbn [step]. unfold handleHumanMove at 1.
    destruct (isPlaying (callbackEnv a1)) eqn:Hp; [| reflexivity].
    exfalso.
    destruct (wf_reachable es) as (Henv0 & _). fold a in Henv0.
    assert (Hs : gameState a1
                 = afterHandler (handleHumanMove (callbackEnv a) mv cm)
                     (gameState a)) by apply gameState_step.
    unfold handleHumanMove in Hs.
    destruct (isPlaying (callbackEnv a)) eqn:Hp0;
      cbn [negb afterHandler applyAction] in Hs.
    + rewrite Hs in Henv. simpl in Henv. congruence.
    + assert (Ha1 : a1 = a).
      { unfold a1. cbn [step]. unfold handleHumanMove. rewrite Hp0.
        reflexivity. }
      rewrite Ha1 in Hp. congruence.
  - intros timer m1 m2 m1' m2'.
    pose proof (wf_reachable (es ++ [TimerFires timer m1 m2]))
      as (_ & Htim & _).
    rewrite <- step_reachable in Htim. fold a in Htim.
    set (a1 := step a (TimerFires timer m1 m2)) in *.
    cbn [step].
    destruct (timers a1 !! timer) as [env1 |] eqn:Ht1; [| reflexivity].
    exfalso.
    destruct (Htim timer env1 Ht1) as (_ & _ & Hplay1 & _).
    destruct (wf_reachable es) as (_ & Htim0 & _). fold a in Htim0.
    destruct (timers a !! timer) as [env |] eqn:Ht.
    + destruct (Htim0 timer env Ht) as (_ & Hplay & _).
      assert (Hs : gameState a1 = roundUpdater (playRound m1 m2) (gameState a)).
      { apply completedRound_step. cbn [completedRound].
        rewrite Ht, Hplay. reflexivity. }
      rewrite Hs in Hplay1. discriminate Hplay1.
    + assert (Ha1 : a1 = a).
      { unfold a1. cbn [step]. rewrite Ht. reflexivity. }
      rewrite Ha1 in Ht1. congruence.
Qed.

(** X7. New-game is the same action as selecting the mode that is already
    selected: on any component the two clicks produce the same component,
    session state, callbacks and timers alike. *)
Theorem reset_is_reselecting_mode :
  forall a,
    step a ClickReset = step a (ClickMode (mode (gameState a))).
Proof. intros a. reflexivity. Qed.

(** ** The scoreboard as a count over the history *)

Section Tally.

(** A counter [c] of the session state that a completed round raises by one
    when [keep] accepts its result, that start-round leaves alone and that
    starting over sets to zero. *)
Variable keep : GameResult -> bool.
Variable c : GameState -> Z.
Hypothesis c_round :
  forall result prev,
    c (roundUpdater result prev) = if keep result then c prev + 1 else c prev.
Hypothesis c_start :
  forall prev, c (afterHandler startNewRound prev) = c prev.
Hypothesis c_reset :
  forall prev, c (afterHandler resetGame prev) = 0.
Hypothesis c_mode :
  forall m prev, c (afterHandler (handleModeChange m) prev) = 0.

Lemma tally_step a e :
  c (gameState (step a e))
  = if startsOver e then 0
    else match completedRound a e with
         | Some result => if keep result then c (gameState a) + 1
                          else c (gameState a)
         | None => c (gameState a)
         end.
Proof.
  rewrite gameState_step.
  destruct e as [m | mv cm | | | timer m1 m2];
    cbn [startsOver completedRound].
  - apply c_mode.
  - unfold handleHumanMove.
    destruct (isPlaying (callbackEnv a)); cbn [negb afterHandler applyAction];
      [apply c_round | reflexivity].
  - apply c_start.
  - apply c_reset.
  - destruct (timers a !! timer) as [env |]; [| reflexivity].
    unfold handleComputerVsComputer.
    destruct (isPlaying env); cbn [negb afterHandler applyAction];
      [apply c_round | reflexivity].
Qed.

Lemma tally_run es a :
  c (gameState (run a es)) = roundsSince keep a es (c (gameState a)).
Proof.
  revert a. induction es as [| e es IH]; intros a; simpl.
  - reflexivity.
  - rewrite IH, tally_step. reflexivity.
Qed.

End Tally.

(** X8. The scoreboard counts the history. After any sequence of events on
    the mounted component, the round counter is the number of rounds
    completed since the session was last started over (by new-game or a
    mode change), and the score of each side, and the tie count, is the
    number of those rounds that the resolver gave to that side. *)
Theorem scoreboard_counts_history :
  forall es,
    currentRound (gameState (run mount es))
    = roundsSince (fun _ => true) mount es 0
    /\ forall w,
         scoreOf w (gameState (run mount es))
         = roundsSince (fun result => Winner_eqb (winner result) w) mount es 0.
Proof.
  intros es. split.
  - apply (tally_run (fun _ => true) currentRound); reflexivity.
  - intros w.
    rewrite (tally_run (fun result => Winner_eqb (winner result) w)
               (scoreOf w)).
    + destruct w as [[|] |]; reflexivity.
    + intros result prev.
      unfold scoreOf, roundUpdater; cbn beta.
      destruct w as [[|] |], (winner result) as [[|] |]; simpl; lia.
    + intros prev. destruct w as [[|] |]; reflexivity.
    + intros prev. destruct w as [[|] |]; reflexivity.
    + intros m prev. destruct w as [[|] |]; reflexivity.
Qed.

(** ** A round can always be played *)

Lemma uiTrace_single a e : uiTrace a [e] = enabled a e.
Proof. simpl. apply andb_true_r. Qed.

Lemma round_of_completed a e result :
  completedRound a e = Some result ->
  currentRound (gameState (step a e)) = currentRound (gameState a) + 1.
Proof.
  intros H. rewrite (completedRound_step a e result H). reflexivity.
Qed.

Lemma playing_round_enabled es move player1Move player2Move :
  isPlaying (gameState (run mount es)) = true ->
  exists e result,
    (e = ClickMove move player1Move
     \/ exists timer, e = TimerFires timer player1Move player2Move)
    /\ enabled (run mount es) e = true
    /\ completedRound (run mount es) e = Some result.
Proof.
  intros Hp.
  destruct (mode (gameState (run mount es))) eqn:Hm.
  - exists (ClickMove move player1Move), (playRound move player1Move).
    assert (He : enabled (run mount es) (ClickMove move player1Move) = true).
    { cbn [enabled]. unfold view; simpl. rewrite Hm, Hp. simpl.
      apply includes_MOVES. }
    split; [left; reflexivity |].
    split; [exact He | apply enabled_move_round, He].
  - pose proof (scheduled_reachable es) as Hs. unfold scheduled in Hs.
    rewrite Hm, Hp in Hs. simpl in Hs. destruct Hs as (timer & _ & Ht).
    exists (TimerFires timer player1Move player2Move),
      (playRound player1Move player2Move).
    assert (He : enabled (run mount es)
                   (TimerFires timer player1Move player2Move) = true).
    { cbn [enabled]. rewrite Ht, lookup_singleton_eq. reflexivity. }
    split; [right; exists timer; reflexivity |].
    split; [exact He | apply enabled_timer_round, He].
Qed.

(** X9. No dead end. From every reachable component, whatever the moves
    that get drawn, at most two enabled events complete a round: if no
    round is in progress the start button is on screen, and once a round is
    in progress either the move buttons are on screen (human-vs-computer) or
    a timer is pending (computer-vs-computer), and that event raises the
    round counter by one. *)
Theorem round_always_playable :
  forall es move player1Move player2Move,
    exists es',
      (length es' <= 2)%nat
      /\ uiTrace (run mount es) es' = true
      /\ (forall e, In e es' ->
            e = ClickStart
            \/ e = ClickMove move player1Move
            \/ exists timer, e = TimerFires timer player1Move player2Move)
      /\ currentRound (gameState (run (run mount es) es'))
         = currentRound (gameState (run mount es)) + 1.
Proof.
  intros es mv m1 m2.
  destruct (isPlaying (gameState (run mount es))) eqn:Hp.
  - destruct (playing_round_enabled es mv m1 m2 Hp)
      as (e & result & Hk & He & Hc).
    exists [e]. split; [simpl; lia |]. split;
      [rewrite uiTrace_single; exact He |]. split.
    + intros e' [<- | []]. right. exact Hk.
    + apply (round_of_completed _ _ _ Hc).
  - assert (Hstart : enabled (run mount es) ClickStart = true).
    { cbn [enabled]. unfold view; simpl. rewrite Hp. reflexivity. }
    assert (Hs1 : gameState (step (run mount es) ClickStart)
                  = afterHandler startNewRound (gameState (run mount es)))
      by apply gameState_step.
    rewrite step_reachable in Hs1.
    assert (Hp1 : isPlaying (gameState (run mount (es ++ [ClickStart]))) = true)
      by (rewrite Hs1; reflexivity).
    destruct (playing_round_enabled (es ++ [ClickStart]) mv m1 m2 Hp1)
      as (e & result & Hk & He & Hc).
    exists [ClickStart; e]. split; [simpl; lia |]. split; [| split].
    + cbn [uiTrace]. rewrite Hstart, step_reachable, He. reflexivity.
    + intros e' [<- | [<- | []]]; [left; reflexivity | right; exact Hk].
    + change (run (run mount es) [ClickStart; e])
        with (step (step (run mount es) ClickStart) e).
      rewrite step_reachable.
      rewrite (round_of_completed _ _ _ Hc), Hs1. reflexivity.
Qed.

(** ** What is on screen *)

(** The two memoized label functions read only what their dependency lists
    name. *)
Lemma getPlayerLabel_deps s s' player :
  mode s = mode s' -> getPlayerLabel s player = getPlayerLabel s' player.
Proof. intros H. unfold getPlayerLabel. rewrite H. reflexivity. Qed.

Lemma getResultMessage_deps s s' :
  lastResult s = lastResult s' -> mode s = mode s' ->
  getResultMessage s = getResultMessage s'.
Proof.
  intros Hr Hm. unfold getResultMessage. rewrite Hr.
  destruct (lastResult s') as [result |]; [| reflexivity].
  destruct (winner result) as [p |]; [| reflexivity].
  rewrite (getPlayerLabel_deps s s' p Hm). reflexivity.
Qed.

(** X10. One way forward. In every state exactly one of the three controls
    that advance the game is rendered: the start button when no round is in
    progress, the three move buttons (one per move, in the order of [MOVES])
    during a round in human-vs-computer mode, the waiting notice during a
    round in computer-vs-computer mode. *)
Theorem one_way_forward :
  forall s,
    match isPlaying s, mode s with
    | false, _ =>
        startButton (view s) <> None
        /\ moveButtons (view s) = []
        /\ computerStatus (view s) = false
    | true, human_vs_computer =>
        startButton (view s) = None
        /\ moveButtons (view s) = [rock; paper; scissors]
        /\ computerStatus (view s) = false
    | true, computer_vs_computer =>
        startButton (view s) = None
        /\ moveButtons (view s) = []
        /\ computerStatus (view s) = true
    end.
Proof.
  intros s. unfold view; simpl.
  destruct (isPlaying s), (mode s); simpl; repeat split;
    try reflexivity; discriminate.
Qed.

(** X11. On every reachable component the last-round panel is on screen
    exactly when the start button reads "Nuovo Round"; with it the new-game
    button is on screen and neither the move buttons nor the waiting notice
    are. The new-game button is hidden exactly when the three numbers of the
    scoreboard are 0. *)
Theorem last_round_panel_between_rounds :
  forall es,
    match lastRoundPanel (view (gameState (run mount es))) with
    | Some _ =>
        startButton (view (gameState (run mount es)))
        = Some "Nuovo Round"%string
        /\ resetButton (view (gameState (run mount es))) = true
        /\ moveButtons (view (gameState (run mount es))) = []
        /\ computerStatus (view (gameState (run mount es))) = false
    | None =>
        startButton (view (gameState (run mount es)))
        <> Some "Nuovo Round"%string
    end
    /\ (resetButton (view (gameState (run mount es))) = false
        <-> map snd (scoreboard (view (gameState (run mount es))))
            = [0; 0; 0]).
Proof.
  intros es.
  pose proof (sound_reachable es) as (Hr & _ & _ & _ & Hres).
  pose proof (scores_zero_iff es) as Hzero.
  revert Hr Hres Hzero.
  generalize (gameState (run mount es)). intros s Hr Hres Hzero.
  split.
  - unfold view; simpl.
    destruct (lastResult s) as [result |].
    + destruct Hres as (_ & Hp & Hpos). rewrite Hp. simpl.
      rewrite !andb_false_r.
      replace (currentRound s =? 0) with false by lia.
      replace (0 <? currentRound s) with true by lia.
      repeat split; reflexivity.
    + destruct Hres as [Hp | Hz].
      * rewrite Hp. simpl. discriminate.
      * rewrite Hz. destruct (isPlaying s); simpl; discriminate.
  - unfold view; simpl. rewrite Z.ltb_ge. split.
    + intros Hle. assert (H0 : currentRound s = 0) by lia.
      apply Hzero in H0 as (-> & -> & ->). reflexivity.
    + intros [= H1 Ht H2]. assert (currentRound s = 0) by (apply Hzero; auto).
      lia.
Qed.

(** X12. The message under the last round reports it. On every reachable
    component with a stored result, the message is "Pareggio!" exactly when
    the two stored moves are equal, it names the first player as winner
    exactly when the first stored move beats the second in the table of
    [determineWinner], and the second player exactly when the second beats
    the first; without a stored result the message is empty. *)
Theorem result_message_reports_round :
  forall es,
    match lastResult (gameState (run mount es)) with
    | None => getResultMessage (gameState (run mount es)) = EmptyString
    | Some result =>
        (getResultMessage (gameState (run mount es)) = "Pareggio!"%string
         <-> player1Move result = player2Move result)
        /\ (getResultMessage (gameState (run mount es))
            = String.append
                (getPlayerLabel (gameState (run mount es)) player1)
                " vince!"
            <-> includes (winConditions (player1Move result))
                  (player2Move result) = true)
        /\ (getResultMessage (gameState (run mount es))
            = String.append
                (getPlayerLabel (gameState (run mount es)) player2)
                " vince!"
            <-> includes (winConditions (player2Move result))
                  (player1Move result) = true)
    end.
Proof.
  intros es.
  pose proof (sound_reachable es) as (_ & _ & _ & _ & Hres).
  revert Hres. generalize (gameState (run mount es)). intros s Hres.
  unfold getResultMessage, getPlayerLabel.
  destruct (lastResult s) as [[w m1 m2] |]; [| reflexivity].
  destruct Hres as (Hw & _). simpl in Hw. subst w. simpl.
  destruct (mode s), m1, m2; simpl;
    repeat split; intros H; try reflexivity; discriminate H.
Qed.

(** X13. The message tells the outcome apart. Two states in the same mode
    that show the same message store the same outcome (none, a tie, or the
    same winner). *)
Theorem result_message_tells_winner :
  forall s s',
    mode s = mode s' ->
    getResultMessage s = getResultMessage s' ->
    (winner <$> lastResult s) = (winner <$> lastResult s').
Proof.
  intros s s' Hm. unfold getResultMessage, getPlayerLabel. rewrite <- Hm.
  destruct (lastResult s) as [[w m1 m2] |],
           (lastResult s') as [[w' m1' m2'] |]; simpl;
    destruct (mode s); simpl;
    try destruct w as [[|] |]; try destruct w' as [[|] |]; simpl;
    intros H; try reflexivity; discriminate H.
Qed.

Lemma result_message_tells_winner_witness :
  getResultMessage
    (gameState (run mount [ClickStart; ClickMove rock scissors]))
  = getResultMessage
      (gameState (run mount [ClickStart; ClickMove paper rock]))
  /\ (winner <$> lastResult
                   (gameState (run mount [ClickStart; ClickMove rock scissors])))
     = (winner <$> lastResult
                     (gameState (run mount [ClickStart; ClickMove paper rock]))).
Proof.
  assert (H : getResultMessage
                (gameState (run mount [ClickStart; ClickMove rock scissors]))
              = getResultMessage
                  (gameState (run mount [ClickStart; ClickMove paper rock])))
    by reflexivity.
  split; [exact H |].
  apply (result_message_tells_winner _ _ eq_refl H).
Defined.

(** ** The table of the resolver is balanced *)

(** X14. No move is better than another: against the three moves of
    [MOVES], every move wins exactly once, loses exactly once and ties
    exactly once; over the nine pairs of moves each outcome occurs three
    times. *)
Theorem win_table_balanced :
  (forall a w,
      length (filter (fun b => Winner_eqb (determineWinner a b) w) MOVES)
      = 1%nat)
  /\ (forall w,
         length
           (filter (fun '(a, b) => Winner_eqb (determineWinner a b) w)
              (list_prod MOVES MOVES))
         = 3%nat).
Proof.
  split.
  - intros a w. destruct a, w as [[|] |]; reflexivity.
  - intros w. destruct w as [[|] |]; reflexivity.
Qed.
